(** * Standings aggregation of the sports service (sports-service/main.py)

    A shallow embedding of [calculate_standings], [get_bears_summary] and
    [get_bears_roster], and the properties of the per-team records they
    produce.

    Modelling choices.
    - The accumulator [standings] is a Python dict keyed by team code; it is
      a [gmap string Stats].  Reading [standings[k]] for an absent key
      raises [KeyError]; the embedding returns [None] there.
    - The schedule is a table whose [result] column may hold nulls (games
      not yet played): [result : option Z].  Scores and counters are
      integers ([Z]).
    - [win_pct] is a quotient; it is kept as an exact rational ([Q]), the
      rounding of the machine quotient is not modelled.
    - A response record is a Python dict; a key that the code does not put
      in the dict is a field holding [None].
    - The order in which a Python set or dict is walked is not fixed by the
      code; the embedding walks [elements] of the set and [map_to_list] of
      the map, and no statement below depends on that order. *)

From Stdlib Require Import ZArith QArith Lia.
From stdpp Require Import gmap strings list fin_maps.

#[local] Set Warnings "-clear-no-such-hyp".

Local Open Scope Z_scope.

(** ** Data model *)

(** One row of the schedule table (the columns the code reads). *)
Record Game := mkGame {
  home_team : string;
  away_team : string;
  home_score : Z;
  away_score : Z;
  result : option Z
}.

(** The value stored per team in [standings] (line 32). *)
Record Stats := mkStats {
  wins : Z;
  losses : Z;
  ties : Z;
  points_for : Z;
  points_against : Z
}.

(** A row of the team description table, indexed by [team_abbr]. *)
Record TeamMeta := mkMeta {
  team_conf : string;
  team_division : string
}.

(** A record of the response.  [conference] and [division] are [None] when
    the dict has no such key (the fallback of [get_bears_summary]). *)
Record TeamStanding := mkStanding {
  team_name : string;
  ts_wins : Z;
  ts_losses : Z;
  ts_ties : Z;
  ts_points_for : Z;
  ts_points_against : Z;
  win_pct : Q;
  conference : option string;
  division : option string
}.

(** A cell of a roster table: null, text or a number. *)
Inductive Cell :=
| CNull
| CStr (s : string)
| CNum (z : Z).

(** A table: its column labels, and its rows as readers of a column. *)
Record DataFrame := mkFrame {
  df_columns : list string;
  df_rows : list (string → Cell)
}.

(** The external provider ([nfl_data_py]): the three tables the service
    reads.  [import_team_desc] is the description table already indexed by
    [team_abbr] and projected on conference and division (lines 59-60). *)
Record DataSource := mkSource {
  import_schedules : Z → list Game;
  import_team_desc : gmap string TeamMeta;
  import_seasonal_rosters : Z → DataFrame
}.

(** ** The accumulator *)

Definition zero_stats : Stats := mkStats 0 0 0 0 0.

Definition add_points_for (v : Z) (s : Stats) : Stats :=
  mkStats (wins s) (losses s) (ties s) (points_for s + v) (points_against s).

Definition add_points_against (v : Z) (s : Stats) : Stats :=
  mkStats (wins s) (losses s) (ties s) (points_for s) (points_against s + v).

Definition add_win (s : Stats) : Stats :=
  mkStats (wins s + 1) (losses s) (ties s) (points_for s) (points_against s).

Definition add_loss (s : Stats) : Stats :=
  mkStats (wins s) (losses s + 1) (ties s) (points_for s) (points_against s).

Definition add_tie (s : Stats) : Stats :=
  mkStats (wins s) (losses s) (ties s + 1) (points_for s) (points_against s).

(** [standings[k][field] += v]: the entry of [k] is read, which fails on an
    absent key, and written back. *)
Definition bump (f : Stats → Stats) (k : string) (st : gmap string Stats)
  : option (gmap string Stats) :=
  match st !! k with
  | Some s => Some (<[k := f s]> st)
  | None => None
  end.

(** [res > 0] and [res < 0] on a possibly null result: both comparisons are
    false on a null. *)
Definition res_pos (r : option Z) : bool :=
  match r with Some z => 0 <? z | None => false end.

Definition res_neg (r : option Z) : bool :=
  match r with Some z => z <? 0 | None => false end.

(** The body of the loop over games (lines 35-56). *)
Definition update_game (game : Game) (st : gmap string Stats)
  : option (gmap string Stats) :=
  let home := home_team game in
  let away := away_team game in
  st ← bump (add_points_for (home_score game)) home st;
  st ← bump (add_points_against (away_score game)) home st;
  st ← bump (add_points_for (away_score game)) away st;
  st ← bump (add_points_against (home_score game)) away st;
  if res_pos (result game) then
    st ← bump add_win home st; bump add_loss away st
  else if res_neg (result game) then
    st ← bump add_loss home st; bump add_win away st
  else
    st ← bump add_tie home st; bump add_tie away st.

(** The loop over games (line 34). *)
Fixpoint run_games (games : list Game) (st : gmap string Stats)
  : option (gmap string Stats) :=
  match games with
  | [] => Some st
  | game :: rest => st' ← update_game game st; run_games rest st'
  end.

(** The loop that initialises the teams (lines 31-32). *)
Fixpoint init_standings (teams : list string) (st : gmap string Stats)
  : gmap string Stats :=
  match teams with
  | [] => st
  | team :: rest => init_standings rest (<[team := zero_stats]> st)
  end.

(** [games[games['result'].notna()]] (line 25). *)
Definition completed (games : list Game) : list Game :=
  filter (λ g, is_Some (result g)) games.

(** The team universe (line 30). *)
Definition team_set (games : list Game) : gset string :=
  list_to_set (home_team <$> games) ∪ list_to_set (away_team <$> games).

(** Lines 25-56: the accumulator after all games of a schedule. *)
Definition standings_of (schedule : list Game) : option (gmap string Stats) :=
  let games := completed schedule in
  run_games games (init_standings (elements (team_set games)) ∅).

(** ** The response records *)

Definition unknown_meta : TeamMeta := mkMeta "Unknown" "Unknown".

(** Line 69. *)
Definition compute_win_pct (stats : Stats) : Q :=
  let total_games := wins stats + losses stats + ties stats in
  if 0 <? total_games
  then ((inject_Z (wins stats) + (1 # 2) * inject_Z (ties stats))
        / inject_Z total_games)%Q
  else 0%Q.

(** The body of the loop over [standings.items()] (lines 66-81). *)
Definition make_record (team_map : gmap string TeamMeta)
    (item : string * Stats) : TeamStanding :=
  let (team, stats) := item in
  let meta := default unknown_meta (team_map !! team) in
  mkStanding team (wins stats) (losses stats) (ties stats)
    (points_for stats) (points_against stats) (compute_win_pct stats)
    (Some (team_conf meta)) (Some (team_division meta)).

Definition calculate_standings (nfl : DataSource) (year : Z)
  : option (list TeamStanding) :=
  standings ← standings_of (import_schedules nfl year);
  Some (make_record (import_team_desc nfl) <$> map_to_list standings).

(** [get_bears_summary] (lines 101-112): the first record named CHI, or the
    fallback dict, which has no conference and no division. *)
Definition fallback (code : string) : TeamStanding :=
  mkStanding code 0 0 0 0 0 0%Q None None.

Definition team_summary (code : string) (data : list TeamStanding)
  : TeamStanding :=
  match find (λ t, bool_decide (team_name t = code)) data with
  | Some bears => bears
  | None => fallback code
  end.

Definition get_bears_summary (nfl : DataSource) (year : Z)
  : option TeamStanding :=
  data ← calculate_standings nfl year;
  Some (team_summary "CHI" data).

(** ** The roster (lines 120-132) *)

#[global] Instance Cell_eq_dec : EqDecision Cell.
Proof. solve_decision. Defined.

Definition cols_to_keep : list string :=
  ["player_name"; "position"; "jersey_number"; "status"; "college";
   "years_exp"; "headshot_url"].

(** [fillna('')] on one cell. *)
Definition fillna (c : Cell) : Cell :=
  match c with
  | CNull => CStr ""
  | _ => c
  end.

(** One dict of [to_dict(orient="records")]: the selected columns in
    order, each with the cell of the row. *)
Definition to_record (cols : list string) (row : string → Cell)
  : list (string * Cell) :=
  (λ c, (c, fillna (row c))) <$> cols.

(** [to_dict(orient="records")]: one dict per row, and no dict at all for
    a table that has no column. *)
Definition to_records (cols : list string) (rows : list (string → Cell))
  : list (list (string * Cell)) :=
  match cols with
  | [] => []
  | _ :: _ => to_record cols <$> rows
  end.

(** The selection [df[df['team'] == 'CHI']] (line 123) raises when the
    table has no team column, and also when it has the label more than
    once; it goes through with the label there exactly once. *)
Definition get_bears_roster (nfl : DataSource) (year : Z)
  : option (list (list (string * Cell))) :=
  let df := import_seasonal_rosters nfl year in
  if bool_decide (length (filter (λ c, c = "team") (df_columns df)) = 1%nat)
  then
    let bears_df := filter (λ row, row "team" = CStr "CHI") (df_rows df) in
    let available_cols := filter (λ c, c ∈ df_columns df) cols_to_keep in
    Some (to_records available_cols bears_df)
  else None.

(** ** Sums over lists *)

Definition sum_with {A} (f : A → Z) (l : list A) : Z :=
  foldr (λ x acc, f x + acc) 0 l.

(** ** What one game contributes to one team *)

Definition stats_plus (d s : Stats) : Stats :=
  mkStats (wins s + wins d) (losses s + losses d) (ties s + ties d)
    (points_for s + points_for d) (points_against s + points_against d).

Definition res_tie (r : option Z) : bool := negb (res_pos r) && negb (res_neg r).

Definition b2z (b : bool) : Z := if b then 1 else 0.

Definition home_delta (g : Game) : Stats :=
  mkStats (b2z (res_pos (result g))) (b2z (res_neg (result g)))
    (b2z (res_tie (result g))) (home_score g) (away_score g).

Definition away_delta (g : Game) : Stats :=
  mkStats (b2z (res_neg (result g))) (b2z (res_pos (result g)))
    (b2z (res_tie (result g))) (away_score g) (home_score g).

Definition side (k t : string) (d : Stats) : Stats :=
  if decide (k = t) then d else zero_stats.

Definition delta (g : Game) (t : string) : Stats :=
  stats_plus (side (away_team g) t (away_delta g))
    (side (home_team g) t (home_delta g)).

Fixpoint total (games : list Game) (t : string) : Stats :=
  match games with
  | [] => zero_stats
  | g :: rest => stats_plus (total rest t) (delta g t)
  end.

(** Appearances of a team, as home and as away, and the games it is in. *)
Definition appearances (t : string) (games : list Game) : Z :=
  sum_with (λ g, b2z (bool_decide (home_team g = t))
               + b2z (bool_decide (away_team g = t))) games.

Definition games_played (t : string) (games : list Game) : Z :=
  Z.of_nat (length (filter (λ g, home_team g = t ∨ away_team g = t) games)).



(** ** A sample season *)

Definition sample_schedule : list Game :=
  [mkGame "AAA" "BBB" 24 17 (Some 7);
   mkGame "BBB" "CHI" 14 14 (Some 0);
   mkGame "CHI" "AAA" 3 10 None;
   mkGame "CHI" "AAA" 20 27 (Some (-7))].

Definition sample_roster : DataFrame :=
  mkFrame ["team"; "player_name"; "position"; "jersey_number"]
    [(λ c, if String.eqb c "team" then CStr "CHI"
           else if String.eqb c "player_name" then CStr "Ann Example"
           else if String.eqb c "position" then CNull
           else CNum 9);
     (λ c, if String.eqb c "team" then CStr "GB" else CStr "other")].

Definition sample_source : DataSource :=
  mkSource (λ _, sample_schedule) {["CHI" := mkMeta "NFC" "NFC North"]}
    (λ _, sample_roster).

Definition sample_data : list TeamStanding :=
  Eval vm_compute in default [] (calculate_standings sample_source 2024).

Definition sample_record : TeamStanding :=
  Eval vm_compute in default (fallback "") (head sample_data).

(** A source that differs from [nfl] in its schedule only. *)
Definition with_schedule (nfl : DataSource) (schedule : list Game)
  : DataSource :=
  mkSource (λ _, schedule) (import_team_desc nfl) (import_seasonal_rosters nfl).

(** ** The games of one team *)

(** A season of one game with one team on both sides. *)
Definition self_game_source : DataSource :=
  mkSource (λ _, [mkGame "AAA" "AAA" 10 10 (Some 0)]) ∅ (λ _, mkFrame [] []).

(** The game is a win, a loss of team [t]. *)
Definition won (t : string) (g : Game) : bool :=
  bool_decide (home_team g = t) && res_pos (result g)
  || bool_decide (away_team g = t) && res_neg (result g).

Definition lost (t : string) (g : Game) : bool :=
  bool_decide (home_team g = t) && res_neg (result g)
  || bool_decide (away_team g = t) && res_pos (result g).

(** Sides of the game on which [t] is, when the game is a tie. *)
Definition tied (t : string) (g : Game) : Z :=
  b2z (bool_decide (home_team g = t) && res_tie (result g))
  + b2z (bool_decide (away_team g = t) && res_tie (result g)).

(** Points scored and conceded by [t] in the game. *)
Definition scored (t : string) (g : Game) : Z :=
  (if bool_decide (home_team g = t) then home_score g else 0)
  + (if bool_decide (away_team g = t) then away_score g else 0).

Definition conceded (t : string) (g : Game) : Z :=
  (if bool_decide (home_team g = t) then away_score g else 0)
  + (if bool_decide (away_team g = t) then home_score g else 0).

(** A record without its conference and division. *)
Definition counters (r : TeamStanding) : string * Z * Z * Z * Z * Z * Q :=
  (team_name r, ts_wins r, ts_losses r, ts_ties r, ts_points_for r,
   ts_points_against r, win_pct r).

(** ** The endpoints, with a provider that may fail

    A call of the provider returns its table or raises; [inl detail] is
    the raised exception with its text.  Each handler catches every
    exception and answers with status 500 and the text of the exception
    (lines 91-96, 100-115, 119-135). *)

Inductive Failure :=
| Upstream (detail : string)
| MissingKey.

Inductive Response (A : Type) :=
| Ok (data : A)
| ServerError (e : Failure).

Arguments Ok {A} data.
Arguments ServerError {A} e.

Record Provider := mkProvider {
  try_import_schedules : Z → string + list Game;
  try_import_team_desc : string + gmap string TeamMeta;
  try_import_seasonal_rosters : Z → string + DataFrame
}.

(** The provider that returns the given tables. *)
Definition source_of (games : list Game) (team_map : gmap string TeamMeta)
    (df : DataFrame) : DataSource :=
  mkSource (λ _, games) team_map (λ _, df).

Definition empty_frame : DataFrame := mkFrame [] [].

Module Facade.

(** [calculate_standings] in the order of its statements: the schedule is
    read (line 22), the loops run (lines 25-56), then the team table is
    read (line 59). *)
Definition calculate_standings (nfl : Provider) (year : Z)
  : Failure + list TeamStanding :=
  match try_import_schedules nfl year with
  | inl detail => inl (Upstream detail)
  | inr games =>
    match standings_of games with
    | None => inl MissingKey
    | Some standings =>
      match try_import_team_desc nfl with
      | inl detail => inl (Upstream detail)
      | inr team_map =>
        inr (make_record team_map <$> map_to_list standings)
      end
    end
  end.

Definition get_standings (nfl : Provider) (year : Z)
  : Response (list TeamStanding) :=
  match calculate_standings nfl year with
  | inr data => Ok data
  | inl e => ServerError e
  end.

Definition get_bears_summary (nfl : Provider) (year : Z)
  : Response TeamStanding :=
  match calculate_standings nfl year with
  | inr data => Ok (team_summary "CHI" data)
  | inl e => ServerError e
  end.

End Facade.

(** A provider that returns the sample tables. *)
Definition sample_provider : Provider :=
  mkProvider (λ _, inr sample_schedule)
    (inr {["CHI" := mkMeta "NFC" "NFC North"]}) (λ _, inr sample_roster).

(** ** Lemmas on sums *)

Section sums.
Context {A : Type}.
Implicit Types (f g : A → Z) (l : list A).

Lemma sum_with_cons f x l : sum_with f (x :: l) = f x + sum_with f l.
Proof. reflexivity. Qed.

Lemma sum_with_app f l1 l2 :
  sum_with f (l1 ++ l2) = sum_with f l1 + sum_with f l2.
Proof. induction l1 as [|x l1 IH]; simpl; [done | rewrite IH; lia]. Qed.

Lemma sum_with_perm f l1 l2 : l1 ≡ₚ l2 → sum_with f l1 = sum_with f l2.
Proof.
  induction 1 as [|x l1 l2 _ IH|x y l|l1 l2 l3 _ IH1 _ IH2]; simpl;
    [done | rewrite IH; done | lia | congruence].
Qed.

Lemma sum_with_ext f g l :
  (∀ x, x ∈ l → f x = g x) → sum_with f l = sum_with g l.
Proof.
  induction l as [|x l IH]; intros Hfg; simpl; [done|].
  rewrite Hfg by left. rewrite IH; [done|].
  intros y Hy. apply Hfg. by right.
Qed.

Lemma sum_with_plus f g l :
  sum_with (λ x, f x + g x) l = sum_with f l + sum_with g l.
Proof. induction l as [|x l IH]; simpl; [done | rewrite IH; lia]. Qed.

Lemma sum_with_zero l : sum_with (λ _ : A, 0) l = 0.
Proof. induction l as [|x l IH]; simpl; [done | by rewrite IH]. Qed.

Lemma sum_with_nonneg f l : (∀ x, x ∈ l → 0 ≤ f x) → 0 ≤ sum_with f l.
Proof.
  induction l as [|x l IH]; intros Hf; simpl; [done|].
  assert (0 ≤ f x) by (apply Hf; left).
  assert (0 ≤ sum_with f l) by (apply IH; intros y Hy; apply Hf; by right).
  lia.
Qed.
End sums.

Lemma sum_with_fmap {A B} (h : A → B) (f : B → Z) (l : list A) :
  sum_with f (h <$> l) = sum_with (f ∘ h) l.
Proof.
  induction l as [|x l IH]; [done|].
  rewrite fmap_cons, !sum_with_cons, IH. done.
Qed.

(** The indicator of one key sums to its value over a duplicate-free list
    that holds the key. *)
Lemma sum_with_side `{EqDecision K} (k : K) (v : Z) (l : list K) :
  NoDup l → k ∈ l → sum_with (λ t, if decide (k = t) then v else 0) l = v.
Proof.
  induction 1 as [|x l Hx Hnd IH]; intros Hk.
  - by apply elem_of_nil in Hk.
  - simpl. destruct (decide (k = x)) as [->|Hne].
    + rewrite (sum_with_ext _ (λ _, 0)), sum_with_zero; [lia|].
      intros y Hy. destruct (decide (x = y)); [congruence | done].
    + apply elem_of_cons in Hk as [?|Hk]; [done|]. by rewrite IH.
Qed.

(** ** The accumulator under one update *)

Lemma stats_ext (s1 s2 : Stats) :
  wins s1 = wins s2 → losses s1 = losses s2 → ties s1 = ties s2 →
  points_for s1 = points_for s2 → points_against s1 = points_against s2 →
  s1 = s2.
Proof. destruct s1, s2; simpl; congruence. Qed.

Lemma stats_plus_zero s : stats_plus zero_stats s = s.
Proof. apply stats_ext; simpl; lia. Qed.

Lemma stats_plus_zero_r s : stats_plus s zero_stats = s.
Proof. apply stats_ext; simpl; lia. Qed.

Lemma res_cases r : b2z (res_pos r) + b2z (res_neg r) + b2z (res_tie r) = 1.
Proof.
  unfold res_tie, res_pos, res_neg. destruct r as [z|]; simpl; [|done].
  destruct (Z.ltb_spec 0 z), (Z.ltb_spec z 0); simpl; lia.
Qed.

Lemma res_pos_neg r : res_pos r = true → res_neg r = false.
Proof.
  unfold res_pos, res_neg. destruct r as [z|]; [|done].
  intros Hz%Z.ltb_lt. apply Z.ltb_ge. lia.
Qed.

Lemma b2z_nonneg b : 0 ≤ b2z b.
Proof. destruct b; simpl; lia. Qed.

Lemma lookup_alter_side (f : Stats → Stats) k t (st : gmap string Stats) :
  alter f k st !! t = (if decide (k = t) then f else id) <$> st !! t.
Proof.
  rewrite lookup_alter. case_decide as Hk; [by subst|].
  by destruct (st !! t).
Qed.

Lemma lookup_alter_is_Some (f : Stats → Stats) k t (st : gmap string Stats) :
  is_Some (alter f k st !! t) ↔ is_Some (st !! t).
Proof. rewrite lookup_alter_side. apply fmap_is_Some. Qed.

(** On a present key the update succeeds and changes that entry only. *)
Lemma bump_alter f k (st : gmap string Stats) :
  is_Some (st !! k) → bump f k st = Some (alter f k st).
Proof.
  intros [s Hs]. unfold bump. rewrite Hs. f_equal.
  apply map_eq. intros t. rewrite lookup_insert, lookup_alter.
  case_decide; [by rewrite Hs | done].
Qed.

Lemma bump_None f k (st : gmap string Stats) :
  st !! k = None → bump f k st = None.
Proof. intros Hk. unfold bump. by rewrite Hk. Qed.

(** One game, on an accumulator that holds both teams: every entry grows
    by the contribution of the game to that team. *)
Lemma update_game_lookup g (st : gmap string Stats) :
  is_Some (st !! home_team g) → is_Some (st !! away_team g) →
  ∃ st', update_game g st = Some st'
       ∧ ∀ t, st' !! t = stats_plus (delta g t) <$> st !! t.
Proof.
  intros Hh Ha. unfold update_game.
  destruct (res_pos (result g)) eqn:Hp; [|destruct (res_neg (result g)) eqn:Hn];
    repeat (rewrite bump_alter by (by rewrite ?lookup_alter_is_Some); simpl);
    (eexists; split; [reflexivity|]);
    intros t; rewrite !lookup_alter_side;
    destruct (st !! t) as [s|]; simpl; [|done| |done| |done]; f_equal;
    unfold delta, side, home_delta, away_delta, res_tie;
    rewrite ?(res_pos_neg _ Hp), Hp, ?Hn;
    destruct (decide (home_team g = t)), (decide (away_team g = t));
    apply stats_ext; simpl; lia.
Qed.

(** ** The accumulator after the loops *)

Lemma stats_plus_assoc a b s :
  stats_plus a (stats_plus b s) = stats_plus (stats_plus a b) s.
Proof. apply stats_ext; simpl; lia. Qed.

Lemma run_games_lookup games : ∀ st : gmap string Stats,
  (∀ g, g ∈ games →
     is_Some (st !! home_team g) ∧ is_Some (st !! away_team g)) →
  ∃ st', run_games games st = Some st'
       ∧ ∀ t, st' !! t = stats_plus (total games t) <$> st !! t.
Proof.
  induction games as [|g rest IH]; intros st Hdom; simpl.
  - exists st. split; [done|]. intros t.
    destruct (st !! t) as [s|]; simpl; [|done]. by rewrite stats_plus_zero.
  - destruct (Hdom g) as [Hh Ha]; [left|].
    destruct (update_game_lookup g st Hh Ha) as (st1 & -> & Hst1). simpl.
    destruct (IH st1) as (st' & -> & Hst').
    { intros g' Hg'. rewrite !Hst1, !fmap_is_Some. apply Hdom. by right. }
    exists st'. split; [done|]. intros t. rewrite Hst', Hst1.
    destruct (st !! t) as [s|]; simpl; [|done]. by rewrite stats_plus_assoc.
Qed.

Lemma init_standings_lookup teams : ∀ (st : gmap string Stats) t,
  init_standings teams st !! t
  = if decide (t ∈ teams) then Some zero_stats else st !! t.
Proof.
  induction teams as [|x teams IH]; intros st t; simpl.
  - destruct (decide (t ∈ [])) as [Ht|Ht]; [inversion Ht | done].
  - rewrite IH, lookup_insert.
    pose proof (elem_of_cons teams t x) as Hcons.
    destruct (decide (t ∈ teams)), (decide (x = t)), (decide (t ∈ x :: teams));
      try done; naive_solver.
Qed.

Lemma team_set_home g games : g ∈ games → home_team g ∈ team_set games.
Proof.
  intros Hg. apply elem_of_union_l, elem_of_list_to_set, list_elem_of_fmap.
  eauto.
Qed.

Lemma team_set_away g games : g ∈ games → away_team g ∈ team_set games.
Proof.
  intros Hg. apply elem_of_union_r, elem_of_list_to_set, list_elem_of_fmap.
  eauto.
Qed.

Lemma elem_of_team_set t games :
  t ∈ team_set games
  ↔ ∃ g, g ∈ games ∧ (home_team g = t ∨ away_team g = t).
Proof.
  unfold team_set.
  rewrite elem_of_union, !elem_of_list_to_set, !list_elem_of_fmap.
  naive_solver.
Qed.

(** The loops never read an absent key, and the entry of a team is the sum
    of the contributions of the retained games. *)
Lemma standings_of_lookup schedule :
  ∃ st, standings_of schedule = Some st
      ∧ ∀ t, st !! t
             = if decide (t ∈ team_set (completed schedule))
               then Some (total (completed schedule) t) else None.
Proof.
  unfold standings_of. set (games := completed schedule).
  destruct (run_games_lookup games
              (init_standings (elements (team_set games)) ∅))
    as (st & Hrun & Hst).
  { intros g Hg. rewrite !init_standings_lookup.
    rewrite !decide_True; [by split | |];
      apply elem_of_elements; eauto using team_set_home, team_set_away. }
  exists st. split; [done|]. intros t.
  rewrite Hst, init_standings_lookup, lookup_empty.
  destruct (decide (t ∈ team_set games)) as [Ht|Ht].
  - rewrite decide_True by (by apply elem_of_elements). simpl.
    by rewrite stats_plus_zero_r.
  - rewrite decide_False by (by rewrite elem_of_elements). done.
Qed.

(** ** Sums of one field over all teams *)

Section field_sums.
Variable φ : Stats → Z.
Hypothesis φ_zero : φ zero_stats = 0.
Hypothesis φ_plus : ∀ a b, φ (stats_plus a b) = φ a + φ b.

Lemma field_side k t d :
  φ (side k t d) = if decide (k = t) then φ d else 0.
Proof. unfold side. by case_decide. Qed.

Lemma sum_delta g (T : list string) :
  NoDup T → home_team g ∈ T → away_team g ∈ T →
  sum_with (λ t, φ (delta g t)) T = φ (home_delta g) + φ (away_delta g).
Proof.
  intros Hnd Hh Ha. unfold delta.
  rewrite (sum_with_ext _
    (λ t, (if decide (away_team g = t) then φ (away_delta g) else 0)
        + (if decide (home_team g = t) then φ (home_delta g) else 0))).
  - rewrite sum_with_plus, !sum_with_side by done. lia.
  - intros t _. by rewrite φ_plus, !field_side.
Qed.

Lemma sum_total games (T : list string) :
  NoDup T →
  (∀ g, g ∈ games → home_team g ∈ T ∧ away_team g ∈ T) →
  sum_with (λ t, φ (total games t)) T
  = sum_with (λ g, φ (home_delta g) + φ (away_delta g)) games.
Proof.
  intros Hnd. induction games as [|g rest IH]; intros Hin; simpl.
  - rewrite (sum_with_ext _ (λ _, 0)), sum_with_zero; done.
  - destruct (Hin g) as [Hh Ha]; [left|].
    rewrite (sum_with_ext _ (λ t, φ (total rest t) + φ (delta g t)))
      by (intros; apply φ_plus).
    rewrite sum_with_plus, sum_delta by done. rewrite IH; [lia|].
    intros g' Hg'. apply Hin. by right.
Qed.
End field_sums.

Lemma wins_plus a b : wins (stats_plus a b) = wins a + wins b.
Proof. simpl. lia. Qed.

Lemma losses_plus a b : losses (stats_plus a b) = losses a + losses b.
Proof. simpl. lia. Qed.

Lemma points_for_plus a b :
  points_for (stats_plus a b) = points_for a + points_for b.
Proof. simpl. lia. Qed.

Lemma points_against_plus a b :
  points_against (stats_plus a b) = points_against a + points_against b.
Proof. simpl. lia. Qed.

(** ** Order of the games *)

Lemma total_perm games1 games2 t :
  games1 ≡ₚ games2 → total games1 t = total games2 t.
Proof.
  induction 1 as [|g l1 l2 _ IH|g1 g2 l|l1 l2 l3 _ IH1 _ IH2]; simpl;
    [done | by rewrite IH | apply stats_ext; simpl; lia | congruence].
Qed.

Lemma team_set_perm games1 games2 :
  games1 ≡ₚ games2 → team_set games1 = team_set games2.
Proof.
  intros Hp. apply set_eq. intros t. rewrite !elem_of_team_set.
  split; intros (g & Hg & Ht); exists g; split; try done.
  - eapply elem_of_Permutation_proper; [symmetry|]; eassumption.
  - eapply elem_of_Permutation_proper; eassumption.
Qed.

Lemma completed_perm games1 games2 :
  games1 ≡ₚ games2 → completed games1 ≡ₚ completed games2.
Proof. intros Hp. unfold completed. by rewrite Hp. Qed.

Lemma standings_of_perm schedule1 schedule2 :
  schedule1 ≡ₚ schedule2 → standings_of schedule1 = standings_of schedule2.
Proof.
  intros Hp%completed_perm.
  destruct (standings_of_lookup schedule1) as (st1 & -> & H1).
  destruct (standings_of_lookup schedule2) as (st2 & -> & H2).
  f_equal. apply map_eq. intros t.
  by rewrite H1, H2, (team_set_perm _ _ Hp), (total_perm _ _ t Hp).
Qed.

(** ** The records of the response *)

Lemma map_to_list_total (st : gmap string Stats) (S : gset string)
    (F : string → Stats) :
  (∀ t, st !! t = if decide (t ∈ S) then Some (F t) else None) →
  map_to_list st ≡ₚ (λ t, (t, F t)) <$> elements S.
Proof.
  intros Hst. apply NoDup_Permutation.
  - apply NoDup_map_to_list.
  - apply NoDup_fmap_2_strong; [|apply NoDup_elements]. congruence.
  - intros [t s]. rewrite elem_of_map_to_list, Hst, list_elem_of_fmap.
    split.
    + case_decide as Ht; [|done]. intros [= <-]. exists t.
      by rewrite elem_of_elements.
    + intros (t' & [= -> ->] & Ht%elem_of_elements). by rewrite decide_True.
Qed.

Lemma calculate_standings_perm nfl year :
  ∃ data, calculate_standings nfl year = Some data
    ∧ data ≡ₚ
        (λ t, make_record (import_team_desc nfl)
                (t, total (completed (import_schedules nfl year)) t))
        <$> elements (team_set (completed (import_schedules nfl year))).
Proof.
  unfold calculate_standings.
  destruct (standings_of_lookup (import_schedules nfl year)) as (st & -> & Hst).
  simpl. eexists. split; [done|].
  rewrite (map_to_list_total _ _ _ Hst), <- list_fmap_compose. done.
Qed.

Lemma calculate_standings_elem nfl year data r :
  calculate_standings nfl year = Some data → r ∈ data →
  ∃ t, t ∈ team_set (completed (import_schedules nfl year))
     ∧ r = make_record (import_team_desc nfl)
             (t, total (completed (import_schedules nfl year)) t).
Proof.
  destruct (calculate_standings_perm nfl year) as (data' & -> & Hp).
  intros [= <-] Hr. rewrite Hp in Hr.
  apply list_elem_of_fmap in Hr as (t & -> & Ht%elem_of_elements). eauto.
Qed.

(** ** Counters of one team *)

Lemma total_counts games t :
  wins (total games t) + losses (total games t) + ties (total games t)
  = appearances t games.
Proof.
  unfold appearances. induction games as [|g rest IH]; [done|].
  rewrite sum_with_cons, <- IH. simpl. unfold side.
  pose proof (res_cases (result g)).
  destruct (decide (home_team g = t)) as [Hh|Hh],
    (decide (away_team g = t)) as [Ha|Ha];
    rewrite ?(bool_decide_eq_true_2 _ Hh), ?(bool_decide_eq_false_2 _ Hh),
      ?(bool_decide_eq_true_2 _ Ha), ?(bool_decide_eq_false_2 _ Ha);
    simpl; lia.
Qed.

Lemma total_nonneg games t :
  0 ≤ wins (total games t) ∧ 0 ≤ losses (total games t)
  ∧ 0 ≤ ties (total games t).
Proof.
  induction games as [|g rest IH]; simpl; [lia|]. unfold side.
  pose proof (b2z_nonneg (res_pos (result g))).
  pose proof (b2z_nonneg (res_neg (result g))).
  pose proof (b2z_nonneg (res_tie (result g))).
  destruct (decide (home_team g = t)), (decide (away_team g = t));
    simpl; lia.
Qed.

Lemma appearances_nonneg t games : 0 ≤ appearances t games.
Proof.
  apply sum_with_nonneg. intros g _.
  pose proof (b2z_nonneg (bool_decide (home_team g = t))).
  pose proof (b2z_nonneg (bool_decide (away_team g = t))). lia.
Qed.

Lemma appearances_pos t games :
  t ∈ team_set games → 1 ≤ appearances t games.
Proof.
  rewrite elem_of_team_set. intros (g & Hg & Ht).
  apply elem_of_Permutation in Hg as [rest Hp].
  unfold appearances. rewrite (sum_with_perm _ _ _ Hp), sum_with_cons.
  pose proof (appearances_nonneg t rest) as Hrest. unfold appearances in Hrest.
  pose proof (b2z_nonneg (bool_decide (home_team g = t))).
  pose proof (b2z_nonneg (bool_decide (away_team g = t))).
  destruct Ht as [Ht|Ht]; rewrite (bool_decide_eq_true_2 _ Ht) in *;
    simpl in *; lia.
Qed.

(** When no game has one team on both sides, appearances are games. *)
Lemma appearances_games_played t games :
  (∀ g, g ∈ games → home_team g ≠ away_team g) →
  appearances t games = games_played t games.
Proof.
  unfold appearances, games_played.
  induction games as [|g rest IH]; intros Hne; [done|].
  rewrite sum_with_cons, IH by (intros; apply Hne; by right).
  assert (home_team g ≠ away_team g) as Hg by (apply Hne; left).
  rewrite filter_cons.
  destruct (decide (home_team g = t)) as [Hh|Hh],
    (decide (away_team g = t)) as [Ha|Ha]; [congruence| | |];
    rewrite ?(bool_decide_eq_true_2 _ Hh), ?(bool_decide_eq_false_2 _ Hh),
      ?(bool_decide_eq_true_2 _ Ha), ?(bool_decide_eq_false_2 _ Ha).
  - rewrite decide_True by (by left). simpl length. simpl b2z. lia.
  - rewrite decide_True by (by right). simpl length. simpl b2z. lia.
  - rewrite decide_False by (by intros [?|?]). simpl b2z. lia.
Qed.

(** ** Statements on the standings *)

(** C1.  For every schedule the aggregation returns its records, and over
    all records the sum of wins equals the sum of losses. *)
Theorem wins_sum_eq_losses_sum nfl year :
  ∃ data, calculate_standings nfl year = Some data
        ∧ sum_with ts_wins data = sum_with ts_losses data.
Proof.
  destruct (calculate_standings_perm nfl year) as (data & Hdata & Hp).
  exists data. split; [done|].
  rewrite !(sum_with_perm _ _ _ Hp), !sum_with_fmap.
  set (games := completed (import_schedules nfl year)).
  assert (∀ g, g ∈ games →
            home_team g ∈ elements (team_set games)
            ∧ away_team g ∈ elements (team_set games)) as Hin.
  { intros g Hg. rewrite !elem_of_elements.
    eauto using team_set_home, team_set_away. }
  transitivity (sum_with (λ t, wins (total games t)) (elements (team_set games)));
    [done|].
  transitivity (sum_with (λ t, losses (total games t)) (elements (team_set games)));
    [|done].
  rewrite (sum_total wins eq_refl wins_plus games _ (NoDup_elements _) Hin).
  rewrite (sum_total losses eq_refl losses_plus games _ (NoDup_elements _) Hin).
  apply sum_with_ext. intros g _. simpl. lia.
Qed.

(** C10.  Over all records the sum of points_for equals the sum of
    points_against: a game adds both of its scores to each. *)
Theorem points_for_sum_eq_points_against_sum nfl year :
  ∃ data, calculate_standings nfl year = Some data
        ∧ sum_with ts_points_for data = sum_with ts_points_against data.
Proof.
  destruct (calculate_standings_perm nfl year) as (data & Hdata & Hp).
  exists data. split; [done|].
  rewrite !(sum_with_perm _ _ _ Hp), !sum_with_fmap.
  set (games := completed (import_schedules nfl year)).
  assert (∀ g, g ∈ games →
            home_team g ∈ elements (team_set games)
            ∧ away_team g ∈ elements (team_set games)) as Hin.
  { intros g Hg. rewrite !elem_of_elements.
    eauto using team_set_home, team_set_away. }
  transitivity
    (sum_with (λ t, points_for (total games t)) (elements (team_set games)));
    [done|].
  transitivity
    (sum_with (λ t, points_against (total games t))
       (elements (team_set games)));
    [|done].
  rewrite (sum_total points_for eq_refl points_for_plus games _
             (NoDup_elements _) Hin).
  rewrite (sum_total points_against eq_refl points_against_plus games _
             (NoDup_elements _) Hin).
  apply sum_with_ext. intros g _. simpl. lia.
Qed.

(** C2, as the code has it.  For every record, wins + losses + ties is
    the number of retained games in which the team is the home team plus
    the number in which it is the away team; when no retained game has one
    team on both sides, that is the number of retained games the team is
    in. *)
Theorem record_counts_games nfl year data r :
  calculate_standings nfl year = Some data → r ∈ data →
  ts_wins r + ts_losses r + ts_ties r
  = appearances (team_name r) (completed (import_schedules nfl year))
  ∧ ((∀ g, g ∈ completed (import_schedules nfl year) →
        home_team g ≠ away_team g) →
     ts_wins r + ts_losses r + ts_ties r
     = games_played (team_name r) (completed (import_schedules nfl year))).
Proof.
  intros Hdata Hr.
  destruct (calculate_standings_elem _ _ _ _ Hdata Hr) as (t & _ & ->).
  simpl. rewrite total_counts. split; [done|].
  intros Hne. by apply appearances_games_played.
Qed.

Lemma record_counts_games_witness :
  ts_wins sample_record + ts_losses sample_record + ts_ties sample_record
  = appearances (team_name sample_record) (completed sample_schedule)
  ∧ ts_wins sample_record + ts_losses sample_record + ts_ties sample_record
    = games_played (team_name sample_record) (completed sample_schedule).
Proof.
  destruct (record_counts_games sample_source 2024 sample_data sample_record)
    as [Happ Hplayed].
  - vm_compute. reflexivity.
  - left.
  - split; [exact Happ|]. apply Hplayed.
    apply Forall_forall. vm_compute. repeat constructor; discriminate.
Defined.

(** C2, as the claim has it, fails: a game with one team on both sides is
    one game of that team and adds two to its counters. *)
Lemma record_counts_games_counterexample :
  ∃ data r,
    calculate_standings self_game_source 2024 = Some data
    ∧ r ∈ data
    ∧ ts_wins r + ts_losses r + ts_ties r
      ≠ games_played (team_name r)
          (completed (import_schedules self_game_source 2024)).
Proof.
  exists [mkStanding "AAA" 0 0 2 20 20 (2 # 4) (Some "Unknown")
            (Some "Unknown")],
         (mkStanding "AAA" 0 0 2 20 20 (2 # 4) (Some "Unknown")
            (Some "Unknown")).
  split; [vm_compute; reflexivity|]. split; [left|].
  vm_compute. discriminate.
Qed.

(** C8.  Every team of the accumulator is in a retained game, so its total
    is at least 1 and line 69 takes the quotient, never the fallback 0. *)
Theorem zero_total_unreachable schedule :
  ∃ st, standings_of schedule = Some st
    ∧ ∀ t s, st !! t = Some s →
        (∃ g, g ∈ completed schedule ∧ (home_team g = t ∨ away_team g = t))
        ∧ 1 ≤ wins s + losses s + ties s
        ∧ compute_win_pct s
          = ((inject_Z (wins s) + (1 # 2) * inject_Z (ties s))
             / inject_Z (wins s + losses s + ties s))%Q.
Proof.
  destruct (standings_of_lookup schedule) as (st & Hst & Hlook).
  exists st. split; [done|]. intros t s. rewrite Hlook.
  case_decide as Ht; [|done]. intros [= <-].
  pose proof (appearances_pos _ _ Ht) as Hpos.
  rewrite <- total_counts in Hpos.
  split; [by apply elem_of_team_set|]. split; [done|].
  unfold compute_win_pct.
  destruct (Z.ltb_spec 0 (wins (total (completed schedule) t)
                          + losses (total (completed schedule) t)
                          + ties (total (completed schedule) t))); [done|lia].
Qed.

Lemma compute_win_pct_bounds s :
  0 ≤ wins s → 0 ≤ losses s → 0 ≤ ties s →
  (0 <= compute_win_pct s)%Q ∧ (compute_win_pct s <= 1)%Q.
Proof.
  intros Hw Hl Ht. unfold compute_win_pct.
  destruct (Z.ltb_spec 0 (wins s + losses s + ties s)) as [Hpos|Hzero].
  - assert (0 < inject_Z (wins s + losses s + ties s))%Q as HposQ
      by (unfold Qlt; simpl; lia).
    split.
    + apply Qle_shift_div_l; [done|].
      unfold Qle, Qmult, Qplus, inject_Z; simpl; lia.
    + apply Qle_shift_div_r; [done|].
      unfold Qle, Qmult, Qplus, inject_Z; simpl; lia.
  - split; unfold Qle; simpl; lia.
Qed.

(** C4.  For every record, win_pct is (wins + 0.5 * ties) / (wins + losses
    + ties) when that total is positive and 0 when it is 0, and it lies
    between 0 and 1. *)
Theorem win_pct_value nfl year :
  ∃ data, calculate_standings nfl year = Some data
    ∧ ∀ r, r ∈ data →
        (0 < ts_wins r + ts_losses r + ts_ties r →
         win_pct r
         = ((inject_Z (ts_wins r) + (1 # 2) * inject_Z (ts_ties r))
            / inject_Z (ts_wins r + ts_losses r + ts_ties r))%Q)
        ∧ (ts_wins r + ts_losses r + ts_ties r = 0 → win_pct r = 0%Q)
        ∧ (0 <= win_pct r)%Q ∧ (win_pct r <= 1)%Q.
Proof.
  destruct (calculate_standings_perm nfl year) as (data & Hdata & _).
  exists data. split; [done|]. intros r Hr.
  destruct (calculate_standings_elem _ _ _ _ Hdata Hr) as (t & _ & ->).
  simpl.
  set (s := total (completed (import_schedules nfl year)) t).
  destruct (total_nonneg (completed (import_schedules nfl year)) t)
    as (Hw & Hl & Ht).
  split; [|split].
  - intros Hpos. unfold compute_win_pct.
    by destruct (Z.ltb_spec 0 (wins s + losses s + ties s)); [|lia].
  - intros Hzero. unfold compute_win_pct.
    by destruct (Z.ltb_spec 0 (wins s + losses s + ties s)); [lia|].
  - by apply compute_win_pct_bounds.
Qed.



(** C5.  Two lists of games that are permutations of each other give the
    same accumulator, hence the same wins, losses, ties, points_for and
    points_against for every team: from the schedule, and from any
    accumulator that holds the teams of the games. *)
Theorem standings_order_independent games1 games2 :
  games1 ≡ₚ games2 →
  (∃ st, standings_of games1 = Some st ∧ standings_of games2 = Some st)
  ∧ ∀ st : gmap string Stats,
      (∀ g, g ∈ games1 →
         is_Some (st !! home_team g) ∧ is_Some (st !! away_team g)) →
      ∃ st', run_games games1 st = Some st' ∧ run_games games2 st = Some st'.
Proof.
  intros Hp. split.
  - destruct (standings_of_lookup games1) as (st & Hst & _).
    exists st. split; [done|]. by rewrite <- (standings_of_perm _ _ Hp).
  - intros st Hdom.
    destruct (run_games_lookup games1 st Hdom) as (st1 & Hst1 & Hl1).
    destruct (run_games_lookup games2 st) as (st2 & Hst2 & Hl2).
    { intros g Hg. apply Hdom.
      eapply elem_of_Permutation_proper; eassumption. }
    exists st1. split; [done|]. rewrite Hst2. f_equal.
    apply map_eq. intros t. by rewrite Hl1, Hl2, (total_perm _ _ t Hp).
Qed.

Lemma standings_order_independent_witness :
  (∃ st, standings_of [mkGame "AAA" "BBB" 24 17 (Some 7);
                       mkGame "BBB" "AAA" 14 14 (Some 0)] = Some st
       ∧ standings_of [mkGame "BBB" "AAA" 14 14 (Some 0);
                       mkGame "AAA" "BBB" 24 17 (Some 7)] = Some st)
  ∧ ∃ st', run_games [mkGame "AAA" "BBB" 24 17 (Some 7);
                      mkGame "BBB" "AAA" 14 14 (Some 0)]
             (init_standings ["AAA"; "BBB"] ∅) = Some st'
         ∧ run_games [mkGame "BBB" "AAA" 14 14 (Some 0);
                      mkGame "AAA" "BBB" 24 17 (Some 7)]
             (init_standings ["AAA"; "BBB"] ∅) = Some st'.
Proof.
  destruct (standings_order_independent
              [mkGame "AAA" "BBB" 24 17 (Some 7);
               mkGame "BBB" "AAA" 14 14 (Some 0)]
              [mkGame "BBB" "AAA" 14 14 (Some 0);
               mkGame "AAA" "BBB" 24 17 (Some 7)]) as [Hsched Hrun].
  - apply perm_swap.
  - split; [exact Hsched|]. apply Hrun.
    apply Forall_forall. repeat constructor; vm_compute; eauto.
Defined.

(** ** One record per team *)

Lemma completed_idemp games : completed (completed games) = completed games.
Proof.
  unfold completed. induction games as [|g rest IH]; [done|].
  rewrite filter_cons. case_decide as Hg; [|done].
  rewrite filter_cons, decide_True by done. by rewrite IH.
Qed.

Lemma fmap_id_ext {A} (f : A → A) (l : list A) :
  (∀ x, f x = x) → f <$> l = l.
Proof.
  intros Hf. induction l as [|x l IH]; [done|].
  by rewrite fmap_cons, Hf, IH.
Qed.

Lemma team_name_make_record team_map t s :
  team_name (make_record team_map (t, s)) = t.
Proof. reflexivity. Qed.

Lemma calculate_standings_names nfl year data :
  calculate_standings nfl year = Some data →
  team_name <$> data
  ≡ₚ elements (team_set (completed (import_schedules nfl year))).
Proof.
  destruct (calculate_standings_perm nfl year) as (data' & -> & Hp).
  intros [= <-]. rewrite Hp, <- list_fmap_compose.
  by rewrite fmap_id_ext.
Qed.

(** C6.  The aggregation returns one record per team code that is the home
    or the away team of a game with a non-null result, no two records for
    one team, and its records are those of the schedule cut down to the
    games with a non-null result. *)
Theorem one_record_per_team nfl year :
  ∃ data, calculate_standings nfl year = Some data
    ∧ NoDup (team_name <$> data)
    ∧ (∀ t, t ∈ team_name <$> data
            ↔ ∃ g, g ∈ import_schedules nfl year ∧ is_Some (result g)
                   ∧ (home_team g = t ∨ away_team g = t))
    ∧ calculate_standings
        (with_schedule nfl (completed (import_schedules nfl year))) year
      = Some data.
Proof.
  destruct (calculate_standings_perm nfl year) as (data & Hdata & _).
  pose proof (calculate_standings_names _ _ _ Hdata) as Hnames.
  exists data. split; [done|]. split; [|split].
  - rewrite Hnames. apply NoDup_elements.
  - intros t. rewrite Hnames, elem_of_elements, elem_of_team_set.
    unfold completed. setoid_rewrite list_elem_of_filter. naive_solver.
  - rewrite <- Hdata. unfold calculate_standings, standings_of. simpl.
    by rewrite completed_idemp.
Qed.

(** ** The summary of one team *)

Lemma team_summary_absent code data :
  (∀ r, r ∈ data → team_name r ≠ code) → team_summary code data = fallback code.
Proof.
  unfold team_summary. induction data as [|x data IH]; intros Hno; [done|].
  simpl. rewrite bool_decide_eq_false_2 by (apply Hno; left).
  apply IH. intros r Hr. apply Hno. by right.
Qed.

Lemma team_summary_present data : ∀ r,
  NoDup (team_name <$> data) → r ∈ data →
  team_summary (team_name r) data = r.
Proof.
  unfold team_summary. induction data as [|x data IH]; intros r Hnd Hr.
  - inversion Hr.
  - rewrite fmap_cons in Hnd. apply NoDup_cons in Hnd as [Hx Hnd]. simpl.
    apply elem_of_cons in Hr as [->|Hr].
    + by rewrite bool_decide_eq_true_2.
    + rewrite bool_decide_eq_false_2; [by apply IH|].
      intros Heq. apply Hx. rewrite Heq. by apply list_elem_of_fmap_2.
Qed.

(** C7.  The summary never fails.  It is the filter of the standings for
    the code CHI; for any code, the filter returns the record of that team
    when there is one, and otherwise a record with wins, losses, ties,
    points_for, points_against and win_pct all 0 and neither conference
    nor division. *)
Theorem summary_record_or_placeholder nfl year :
  ∃ data, calculate_standings nfl year = Some data
    ∧ get_bears_summary nfl year = Some (team_summary "CHI" data)
    ∧ ∀ code,
        (∀ r, r ∈ data → team_name r = code → team_summary code data = r)
        ∧ ((∀ r, r ∈ data → team_name r ≠ code) →
           team_summary code data
           = mkStanding code 0 0 0 0 0 0%Q None None).
Proof.
  destruct (calculate_standings_perm nfl year) as (data & Hdata & _).
  exists data. split; [done|]. split.
  - unfold get_bears_summary. by rewrite Hdata.
  - intros code. split.
    + intros r Hr <-. apply team_summary_present; [|done].
      rewrite (calculate_standings_names _ _ _ Hdata). apply NoDup_elements.
    + apply team_summary_absent.
Qed.

(** ** The roster *)

Lemma to_record_keys cols row : (to_record cols row).*1 = cols.
Proof.
  unfold to_record. rewrite <- list_fmap_compose. by apply fmap_id_ext.
Qed.

Lemma elem_of_to_records cols rows rec :
  rec ∈ to_records cols rows → rec ∈ to_record cols <$> rows.
Proof. destruct cols; [by intros ?%elem_of_nil | done]. Qed.

Lemma fillna_not_null c : fillna c ≠ CNull.
Proof. by destruct c. Qed.

Lemma filter_all_in (cols all : list string) :
  (∀ c, c ∈ all → c ∈ cols) → filter (λ c, c ∈ cols) all = all.
Proof.
  induction all as [|c all IH]; intros Hin; [done|].
  rewrite filter_cons, decide_True by (apply Hin; left).
  rewrite IH; [done|]. intros c' Hc'. apply Hin. by right.
Qed.

(** C9, as the code has it.  Every entry of a roster that is returned has
    as its fields the allow-listed columns that the source table has, in
    the order of the allow-list; the value of a field is the cell of a CHI
    row, a null cell being the empty string, so no value is null; when the
    table has all seven columns the fields are the seven of the list. *)
Theorem roster_entry_fields nfl year records rec :
  get_bears_roster nfl year = Some records → rec ∈ records →
  rec.*1 = filter (λ c, c ∈ df_columns (import_seasonal_rosters nfl year))
             cols_to_keep
  ∧ (∃ row, row ∈ df_rows (import_seasonal_rosters nfl year)
          ∧ row "team" = CStr "CHI"
          ∧ ∀ c v, (c, v) ∈ rec →
              v = fillna (row c) ∧ (row c = CNull → v = CStr ""))
  ∧ (∀ c v, (c, v) ∈ rec → v ≠ CNull)
  ∧ ((∀ c, c ∈ cols_to_keep →
        c ∈ df_columns (import_seasonal_rosters nfl year)) →
     rec.*1 = cols_to_keep).
Proof.
  unfold get_bears_roster. case_bool_decide as Hteam; [|done].
  intros [= <-] Hrec%elem_of_to_records.
  apply list_elem_of_fmap in Hrec as (row & -> & Hrow).
  apply list_elem_of_filter in Hrow as [Hchi Hrow].
  rewrite to_record_keys.
  assert (∀ c v, (c, v) ∈ to_record
            (filter (λ c, c ∈ df_columns (import_seasonal_rosters nfl year))
               cols_to_keep) row → v = fillna (row c)) as Hval.
  { intros c v Hcv. unfold to_record in Hcv.
    apply list_elem_of_fmap in Hcv as (c' & [= -> ->] & _). done. }
  split; [done|]. split; [|split].
  - exists row. split; [done|]. split; [done|]. intros c v Hcv.
    rewrite (Hval c v Hcv). split; [done|]. by intros ->.
  - intros c v Hcv. rewrite (Hval c v Hcv). apply fillna_not_null.
  - intros Hall. by apply filter_all_in.
Qed.

Lemma roster_entry_fields_witness :
  ∃ rec, rec ∈ default [] (get_bears_roster sample_source 2024)
    ∧ rec.*1 = ["player_name"; "position"; "jersey_number"]
    ∧ ∀ c v, (c, v) ∈ rec → v ≠ CNull.
Proof.
  exists [("player_name", CStr "Ann Example"); ("position", CStr "");
          ("jersey_number", CNum 9)].
  destruct (roster_entry_fields sample_source 2024
              [[("player_name", CStr "Ann Example"); ("position", CStr "");
                ("jersey_number", CNum 9)]]
              [("player_name", CStr "Ann Example"); ("position", CStr "");
               ("jersey_number", CNum 9)])
    as (Hkeys & _ & Hnull & _).
  - vm_compute. reflexivity.
  - left.
  - split; [vm_compute; left|]. split; [exact Hkeys | exact Hnull].
Defined.

(** C9, as the claim has it, fails: a table without the college column
    gives entries without a college field. *)
Lemma roster_entry_fields_counterexample :
  ∃ records rec,
    get_bears_roster sample_source 2024 = Some records
    ∧ rec ∈ records
    ∧ rec.*1 ≠ cols_to_keep
    ∧ "college" ∉ rec.*1.
Proof.
  exists [[("player_name", CStr "Ann Example"); ("position", CStr "");
           ("jersey_number", CNum 9)]],
         [("player_name", CStr "Ann Example"); ("position", CStr "");
          ("jersey_number", CNum 9)].
  split; [vm_compute; reflexivity|]. split; [left|].
  split; [discriminate|].
  simpl. intros Hin. repeat (apply elem_of_cons in Hin as [Hin|Hin]; [discriminate|]).
  inversion Hin.
Qed.

(** ** Worked examples *)

(** One game, AAA 24 - BBB 17. *)
Example one_game_home_win :
  let data := default []
    (calculate_standings
       (mkSource (λ _, [mkGame "AAA" "BBB" 24 17 (Some 7)]) ∅
          (λ _, mkFrame [] [])) 2024) in
  let a := team_summary "AAA" data in
  let b := team_summary "BBB" data in
  (ts_wins a, ts_losses a, ts_ties a, ts_points_for a, ts_points_against a)
  = (1, 0, 0, 24, 17)
  ∧ (ts_wins b, ts_losses b, ts_ties b, ts_points_for b, ts_points_against b)
    = (0, 1, 0, 17, 24)
  ∧ (win_pct a == 1)%Q ∧ (win_pct b == 0)%Q
  ∧ conference a = Some "Unknown" ∧ division a = Some "Unknown".
Proof. vm_compute. repeat split; reflexivity. Qed.

(** One game tied 14 - 14. *)
Example one_game_tie :
  let data := default []
    (calculate_standings
       (mkSource (λ _, [mkGame "AAA" "BBB" 14 14 (Some 0)]) ∅
          (λ _, mkFrame [] [])) 2024) in
  let a := team_summary "AAA" data in
  let b := team_summary "BBB" data in
  ts_ties a = 1 ∧ ts_ties b = 1
  ∧ (win_pct a == 1 # 2)%Q ∧ (win_pct b == 1 # 2)%Q.
Proof. vm_compute. repeat split; reflexivity. Qed.

(** A game whose two sides are one team counts twice for that team. *)
Example one_team_on_both_sides :
  let data := default []
    (calculate_standings
       (mkSource (λ _, [mkGame "AAA" "AAA" 10 10 (Some 0)]) ∅
          (λ _, mkFrame [] [])) 2024) in
  let a := team_summary "AAA" data in
  ts_ties a = 2 ∧ ts_points_for a = 20 ∧ ts_points_against a = 20
  ∧ games_played "AAA" [mkGame "AAA" "AAA" 10 10 (Some 0)] = 1.
Proof. vm_compute. repeat split; reflexivity. Qed.

(** A table with no team column: the roster fails. *)
Example roster_without_team_column :
  get_bears_roster
    (mkSource (λ _, []) ∅ (λ _, mkFrame ["player_name"] [])) 2024 = None.
Proof. reflexivity. Qed.

(** ** Further properties of the records *)

Lemma calculate_standings_elem_of nfl year data t :
  calculate_standings nfl year = Some data →
  t ∈ team_set (completed (import_schedules nfl year)) →
  make_record (import_team_desc nfl)
    (t, total (completed (import_schedules nfl year)) t) ∈ data.
Proof.
  destruct (calculate_standings_perm nfl year) as (data' & -> & Hp).
  intros [= <-] Ht. rewrite Hp.
  apply (list_elem_of_fmap_2
           (λ t, make_record (import_team_desc nfl)
                   (t, total (completed (import_schedules nfl year)) t))).
  by apply elem_of_elements.
Qed.

(** X1.  The conference and the division of a record are those of the team
    table at the team code, and both are "Unknown" for a code that the
    table does not have. *)
Theorem record_metadata nfl year :
  ∃ data, calculate_standings nfl year = Some data
    ∧ ∀ r, r ∈ data →
        match import_team_desc nfl !! team_name r with
        | Some meta => conference r = Some (team_conf meta)
                       ∧ division r = Some (team_division meta)
        | None => conference r = Some "Unknown"
                  ∧ division r = Some "Unknown"
        end.
Proof.
  destruct (calculate_standings_perm nfl year) as (data & Hdata & _).
  exists data. split; [done|]. intros r Hr.
  destruct (calculate_standings_elem _ _ _ _ Hdata Hr) as (t & _ & ->).
  simpl. by destruct (import_team_desc nfl !! t).
Qed.

(** X2.  The wins, losses and ties of every record are non-negative. *)
Theorem record_counters_nonneg nfl year :
  ∃ data, calculate_standings nfl year = Some data
    ∧ ∀ r, r ∈ data → 0 ≤ ts_wins r ∧ 0 ≤ ts_losses r ∧ 0 ≤ ts_ties r.
Proof.
  destruct (calculate_standings_perm nfl year) as (data & Hdata & _).
  exists data. split; [done|]. intros r Hr.
  destruct (calculate_standings_elem _ _ _ _ Hdata Hr) as (t & _ & ->).
  simpl. apply total_nonneg.
Qed.

Lemma ties_plus a b : ties (stats_plus a b) = ties a + ties b.
Proof. simpl. lia. Qed.

Lemma delta_fields g t :
  wins (delta g t) = b2z (won t g)
  ∧ losses (delta g t) = b2z (lost t g)
  ∧ ties (delta g t) = tied t g
  ∧ points_for (delta g t) = scored t g
  ∧ points_against (delta g t) = conceded t g.
Proof.
  unfold delta, side, won, lost, tied, scored, conceded.
  destruct (decide (home_team g = t)) as [Hh|Hh],
    (decide (away_team g = t)) as [Ha|Ha];
    rewrite ?(bool_decide_eq_true_2 _ Hh), ?(bool_decide_eq_false_2 _ Hh),
      ?(bool_decide_eq_true_2 _ Ha), ?(bool_decide_eq_false_2 _ Ha);
    simpl;
    destruct (res_pos (result g)) eqn:Hp;
    rewrite ?(res_pos_neg _ Hp); simpl;
    destruct (res_neg (result g)); simpl; repeat split; lia.
Qed.

Lemma total_fields games t :
  wins (total games t) = sum_with (λ g, b2z (won t g)) games
  ∧ losses (total games t) = sum_with (λ g, b2z (lost t g)) games
  ∧ ties (total games t) = sum_with (tied t) games
  ∧ points_for (total games t) = sum_with (scored t) games
  ∧ points_against (total games t) = sum_with (conceded t) games.
Proof.
  induction games as [|g rest (IHw & IHl & IHt & IHf & IHa)]; [done|].
  destruct (delta_fields g t) as (Hw & Hl & Ht & Hf & Ha).
  rewrite !sum_with_cons. simpl total.
  rewrite wins_plus, losses_plus, ties_plus, points_for_plus,
    points_against_plus.
  rewrite IHw, IHl, IHt, IHf, IHa, Hw, Hl, Ht, Hf, Ha.
  repeat split; lia.
Qed.

(** X3.  When no retained game has a negative score, no record has a
    negative points_for or points_against. *)
Theorem record_points_nonneg nfl year data r :
  calculate_standings nfl year = Some data → r ∈ data →
  (∀ g, g ∈ completed (import_schedules nfl year) →
     0 ≤ home_score g ∧ 0 ≤ away_score g) →
  0 ≤ ts_points_for r ∧ 0 ≤ ts_points_against r.
Proof.
  intros Hdata Hr Hscores.
  destruct (calculate_standings_elem _ _ _ _ Hdata Hr) as (t & _ & ->).
  simpl.
  destruct (total_fields (completed (import_schedules nfl year)) t)
    as (_ & _ & _ & -> & ->).
  split; apply sum_with_nonneg; intros g Hg;
    destruct (Hscores g Hg); unfold scored, conceded;
    repeat case_bool_decide; lia.
Qed.

Lemma record_points_nonneg_witness :
  0 ≤ ts_points_for sample_record ∧ 0 ≤ ts_points_against sample_record.
Proof.
  apply (record_points_nonneg sample_source 2024 sample_data sample_record).
  - vm_compute. reflexivity.
  - left.
  - apply Forall_forall. vm_compute. repeat constructor; discriminate.
Defined.

(** X4.  In every record, wins is the number of retained games the team
    won (as home with a positive result, as away with a negative one),
    losses the number it lost, ties the number of its sides in tied games,
    points_for the sum of its own scores and points_against the sum of the
    scores of its opponents. *)
Theorem record_fields_by_game nfl year :
  ∃ data, calculate_standings nfl year = Some data
    ∧ ∀ r, r ∈ data →
        ts_wins r
        = sum_with (λ g, b2z (won (team_name r) g))
            (completed (import_schedules nfl year))
        ∧ ts_losses r
          = sum_with (λ g, b2z (lost (team_name r) g))
              (completed (import_schedules nfl year))
        ∧ ts_ties r
          = sum_with (tied (team_name r))
              (completed (import_schedules nfl year))
        ∧ ts_points_for r
          = sum_with (scored (team_name r))
              (completed (import_schedules nfl year))
        ∧ ts_points_against r
          = sum_with (conceded (team_name r))
              (completed (import_schedules nfl year)).
Proof.
  destruct (calculate_standings_perm nfl year) as (data & Hdata & _).
  exists data. split; [done|]. intros r Hr.
  destruct (calculate_standings_elem _ _ _ _ Hdata Hr) as (t & _ & ->).
  simpl. apply total_fields.
Qed.

Lemma all_plus a b :
  wins (stats_plus a b) + losses (stats_plus a b) + ties (stats_plus a b)
  = (wins a + losses a + ties a) + (wins b + losses b + ties b).
Proof. simpl. lia. Qed.

(** X5.  Over all records, the counters add up to twice the number of
    retained games, the ties to twice the number of tied games, and the
    wins to the number of games with a non-zero result. *)
Theorem league_totals nfl year :
  ∃ data, calculate_standings nfl year = Some data
    ∧ sum_with (λ r, ts_wins r + ts_losses r + ts_ties r) data
      = 2 * Z.of_nat (length (completed (import_schedules nfl year)))
    ∧ sum_with ts_ties data
      = 2 * sum_with (λ g, b2z (res_tie (result g)))
              (completed (import_schedules nfl year))
    ∧ sum_with ts_wins data
      = sum_with (λ g, b2z (negb (res_tie (result g))))
          (completed (import_schedules nfl year)).
Proof.
  destruct (calculate_standings_perm nfl year) as (data & Hdata & Hp).
  exists data. split; [done|].
  rewrite !(sum_with_perm _ _ _ Hp), !sum_with_fmap.
  set (games := completed (import_schedules nfl year)).
  assert (∀ g, g ∈ games →
            home_team g ∈ elements (team_set games)
            ∧ away_team g ∈ elements (team_set games)) as Hin.
  { intros g Hg. rewrite !elem_of_elements.
    eauto using team_set_home, team_set_away. }
  split; [|split].
  - transitivity
      (sum_with (λ t, wins (total games t) + losses (total games t)
                      + ties (total games t)) (elements (team_set games)));
      [done|].
    rewrite (sum_total (λ s, wins s + losses s + ties s) eq_refl all_plus
               games _ (NoDup_elements _) Hin).
    clear. induction games as [|g rest IH]; [done|].
    rewrite sum_with_cons, IH. pose proof (res_cases (result g)).
    simpl. lia.
  - transitivity
      (sum_with (λ t, ties (total games t)) (elements (team_set games)));
      [done|].
    rewrite (sum_total ties eq_refl ties_plus games _ (NoDup_elements _) Hin).
    clear. induction games as [|g rest IH]; [done|].
    rewrite !sum_with_cons, IH. simpl. lia.
  - transitivity
      (sum_with (λ t, wins (total games t)) (elements (team_set games)));
      [done|].
    rewrite (sum_total wins eq_refl wins_plus games _ (NoDup_elements _) Hin).
    apply sum_with_ext. intros g _. simpl. unfold res_tie.
    destruct (res_pos (result g)) eqn:Hpos; rewrite ?(res_pos_neg _ Hpos);
      simpl; [done|]. destruct (res_neg (result g)); simpl; lia.
Qed.

(** X6.  The standings are empty exactly when no game of the year has a
    result. *)
Theorem standings_empty_iff nfl year :
  ∃ data, calculate_standings nfl year = Some data
    ∧ (data = [] ↔ ∀ g, g ∈ import_schedules nfl year → result g = None).
Proof.
  destruct (calculate_standings_perm nfl year) as (data & Hdata & _).
  exists data. split; [done|]. split.
  - intros -> g Hg. destruct (result g) as [z|] eqn:Hres; [|done].
    assert (g ∈ completed (import_schedules nfl year)) as Hc.
    { apply list_elem_of_filter. split; [|done]. rewrite Hres. by eexists. }
    pose proof (calculate_standings_elem_of _ _ _ _ Hdata
                  (team_set_home _ _ Hc)) as Hin.
    inversion Hin.
  - intros Hnone. destruct data as [|r data]; [done|]. exfalso.
    destruct (calculate_standings_elem _ _ _ r Hdata) as (t & Ht & _);
      [left|].
    apply elem_of_team_set in Ht as (g & Hg & _).
    apply list_elem_of_filter in Hg as [[z Hz] Hg].
    rewrite (Hnone g Hg) in Hz. done.
Qed.

Lemma completed_cons g games :
  completed (g :: games)
  = if decide (is_Some (result g)) then g :: completed games
    else completed games.
Proof. unfold completed. by rewrite filter_cons. Qed.

Lemma total_cons g games t :
  total (g :: games) t = stats_plus (total games t) (delta g t).
Proof. reflexivity. Qed.

Lemma delta_other g t :
  t ≠ home_team g → t ≠ away_team g → delta g t = zero_stats.
Proof.
  intros Hh Ha. unfold delta, side.
  by rewrite !decide_False by congruence.
Qed.

(** X7.  One more game in the schedule leaves the record of every team
    that is neither its home team nor its away team as it was. *)
Theorem other_teams_unchanged nfl year g data r :
  calculate_standings nfl year = Some data → r ∈ data →
  team_name r ≠ home_team g → team_name r ≠ away_team g →
  ∃ data',
    calculate_standings (with_schedule nfl (g :: import_schedules nfl year))
      year = Some data'
    ∧ r ∈ data'.
Proof.
  intros Hdata Hr Hh Ha.
  destruct (calculate_standings_elem _ _ _ _ Hdata Hr) as (t & Ht & ->).
  simpl in Hh, Ha.
  destruct (calculate_standings_perm
              (with_schedule nfl (g :: import_schedules nfl year)) year)
    as (data' & Hdata' & _).
  exists data'. split; [done|].
  pose proof (calculate_standings_elem_of _ _ _ t Hdata') as Hin.
  unfold with_schedule in Hin.
  cbn [import_schedules import_team_desc] in Hin.
  rewrite completed_cons in Hin.
  destruct (decide (is_Some (result g))) as [Hplayed|Hnot].
  - rewrite total_cons, (delta_other g t Hh Ha), stats_plus_zero_r in Hin.
    apply Hin. apply elem_of_team_set.
    apply elem_of_team_set in Ht as (g' & Hg' & Hside).
    exists g'. split; [by right | done].
  - by apply Hin.
Qed.

Lemma other_teams_unchanged_witness :
  ∃ data',
    calculate_standings
      (with_schedule sample_source
         (mkGame "GB" "DET" 31 29 (Some 2) :: sample_schedule)) 2024
    = Some data'
    ∧ sample_record ∈ data'.
Proof.
  apply (other_teams_unchanged sample_source 2024
           (mkGame "GB" "DET" 31 29 (Some 2)) sample_data sample_record).
  - vm_compute. reflexivity.
  - left.
  - vm_compute. discriminate.
  - vm_compute. discriminate.
Defined.

(** ** Missing keys *)

Lemma update_game_None_home g (st : gmap string Stats) :
  st !! home_team g = None → update_game g st = None.
Proof. intros Hh. unfold update_game. by rewrite (bump_None _ _ _ Hh). Qed.

Lemma update_game_None_away g (st : gmap string Stats) :
  st !! away_team g = None → update_game g st = None.
Proof.
  intros Ha. destruct (st !! home_team g) as [s|] eqn:Hh;
    [|by apply update_game_None_home].
  unfold update_game.
  rewrite bump_alter by (by rewrite Hh). simpl.
  rewrite bump_alter by (by rewrite lookup_alter_is_Some, Hh). simpl.
  rewrite bump_None; [done|]. by rewrite !lookup_alter_side, Ha.
Qed.

Lemma update_game_Some_keys g (st st' : gmap string Stats) :
  update_game g st = Some st' →
  is_Some (st !! home_team g) ∧ is_Some (st !! away_team g).
Proof.
  intros Hst'.
  destruct (st !! home_team g) as [sh|] eqn:Hh;
    [|by rewrite update_game_None_home in Hst'].
  destruct (st !! away_team g) as [sa|] eqn:Ha;
    [|by rewrite update_game_None_away in Hst'].
  by split.
Qed.

(** X8.  The update of one game goes through exactly when its home team
    and its away team are both keys of the accumulator; with either one
    missing it fails. *)
Theorem update_game_succeeds_iff g (st : gmap string Stats) :
  is_Some (update_game g st)
  ↔ is_Some (st !! home_team g) ∧ is_Some (st !! away_team g).
Proof.
  split.
  - intros [st' Hst']. by apply (update_game_Some_keys g st st').
  - intros [Hh Ha].
    destruct (update_game_lookup g st Hh Ha) as (st' & -> & _). by eexists.
Qed.

(** X9.  A successful update of one game keeps the set of keys and the
    entry of every team other than the two of the game. *)
Theorem update_game_frame g (st st' : gmap string Stats) :
  update_game g st = Some st' →
  dom st' = dom st
  ∧ ∀ t, t ≠ home_team g → t ≠ away_team g → st' !! t = st !! t.
Proof.
  intros Hst'. destruct (update_game_Some_keys _ _ _ Hst') as [Hh Ha].
  destruct (update_game_lookup g st Hh Ha) as (st1 & Hst1 & Hlook).
  assert (st1 = st') as -> by congruence. split.
  - apply set_eq. intros t. by rewrite !elem_of_dom, Hlook, fmap_is_Some.
  - intros t Hth Hta. rewrite Hlook, (delta_other g t Hth Hta).
    destruct (st !! t) as [s|]; simpl; [|done]. by rewrite stats_plus_zero.
Qed.

Lemma update_game_frame_witness :
  ∃ st', update_game (mkGame "AAA" "BBB" 24 17 (Some 7))
           (init_standings ["AAA"; "BBB"; "CCC"] ∅) = Some st'
    ∧ dom st' = dom (init_standings ["AAA"; "BBB"; "CCC"] ∅)
    ∧ st' !! "CCC" = Some zero_stats.
Proof.
  destruct (update_game_lookup (mkGame "AAA" "BBB" 24 17 (Some 7))
              (init_standings ["AAA"; "BBB"; "CCC"] ∅))
    as (st' & Hst' & _); [vm_compute; eauto | vm_compute; eauto |].
  exists st'. split; [exact Hst'|].
  destruct (update_game_frame _ _ _ Hst') as [Hdom Hother].
  split; [exact Hdom|]. rewrite Hother; [reflexivity | discriminate..].
Defined.

(** X10.  The loop over the games goes through exactly when the teams of
    all the games are keys of the accumulator it starts from. *)
Theorem run_games_succeeds_iff games (st : gmap string Stats) :
  is_Some (run_games games st)
  ↔ ∀ g, g ∈ games →
      is_Some (st !! home_team g) ∧ is_Some (st !! away_team g).
Proof.
  split.
  - revert st. induction games as [|g rest IH]; intros st [st' Hst'] g' Hg'.
    { inversion Hg'. }
    simpl in Hst'.
    destruct (update_game g st) as [st1|] eqn:Hst1; [|done]. simpl in Hst'.
    destruct (update_game_Some_keys _ _ _ Hst1) as [Hh Ha].
    apply elem_of_cons in Hg' as [->|Hg']; [done|].
    destruct (update_game_lookup g st Hh Ha) as (st2 & Hst2 & Hlook).
    assert (st2 = st1) as -> by congruence.
    destruct (IH st1 (ex_intro _ st' Hst') g' Hg') as [Hh' Ha'].
    by rewrite !Hlook, !fmap_is_Some in Hh', Ha'.
  - intros Hkeys.
    destruct (run_games_lookup games st Hkeys) as (st' & -> & _). by eexists.
Qed.

(** X11.  Two schedules with the same games in another order give the same
    records, up to their order. *)
Theorem records_order_independent nfl year schedule :
  schedule ≡ₚ import_schedules nfl year →
  ∃ data data',
    calculate_standings nfl year = Some data
    ∧ calculate_standings (with_schedule nfl schedule) year = Some data'
    ∧ data ≡ₚ data'.
Proof.
  intros Hp. unfold calculate_standings. simpl.
  rewrite (standings_of_perm _ _ Hp).
  destruct (standings_of_lookup (import_schedules nfl year)) as (st & -> & _).
  simpl. by eexists _, _.
Qed.

Lemma records_order_independent_witness :
  ∃ data data',
    calculate_standings sample_source 2024 = Some data
    ∧ calculate_standings (with_schedule sample_source (rev sample_schedule))
        2024 = Some data'
    ∧ data ≡ₚ data'.
Proof.
  apply (records_order_independent sample_source 2024 (rev sample_schedule)).
  symmetry. apply Permutation_rev.
Defined.

(** X12.  The team table has no part in the name, the counters, the points
    and win_pct of the records: two providers with the same schedule give
    the same records but for conference and division. *)
Theorem counters_independent_of_team_table nfl1 nfl2 year :
  import_schedules nfl1 year = import_schedules nfl2 year →
  ∃ data1 data2,
    calculate_standings nfl1 year = Some data1
    ∧ calculate_standings nfl2 year = Some data2
    ∧ counters <$> data1 = counters <$> data2.
Proof.
  intros Hsched. unfold calculate_standings. rewrite Hsched.
  destruct (standings_of_lookup (import_schedules nfl2 year)) as (st & -> & _).
  simpl. eexists _, _. split; [done|]. split; [done|].
  rewrite <- !list_fmap_compose. apply list_fmap_ext.
  by intros _ [t s] _.
Qed.

Lemma counters_independent_of_team_table_witness :
  ∃ data1 data2,
    calculate_standings sample_source 2024 = Some data1
    ∧ calculate_standings
        (mkSource (λ _, sample_schedule) ∅ (λ _, empty_frame)) 2024
      = Some data2
    ∧ counters <$> data1 = counters <$> data2.
Proof.
  apply (counters_independent_of_team_table sample_source
           (mkSource (λ _, sample_schedule) ∅ (λ _, empty_frame)) 2024).
  reflexivity.
Defined.

(** ** The extremes of win_pct *)

Lemma Qdiv_eq_iff (a b c : Q) :
  ¬ (b == 0)%Q → (a / b == c)%Q ↔ (a == c * b)%Q.
Proof.
  intros Hb. split; intros H.
  - rewrite <- H. field. exact Hb.
  - rewrite H. field. exact Hb.
Qed.

Lemma quotient_extremes s :
  0 ≤ wins s → 0 ≤ losses s → 0 ≤ ties s →
  1 ≤ wins s + losses s + ties s →
  ((compute_win_pct s == 1)%Q ↔ losses s = 0 ∧ ties s = 0)
  ∧ ((compute_win_pct s == 0)%Q ↔ wins s = 0 ∧ ties s = 0).
Proof.
  intros Hw Hl Ht Hn. unfold compute_win_pct.
  destruct (Z.ltb_spec 0 (wins s + losses s + ties s)) as [_|?]; [|lia].
  assert (¬ (inject_Z (wins s + losses s + ties s) == 0)%Q) as Hb
    by (unfold Qeq; simpl; lia).
  split; rewrite (Qdiv_eq_iff _ _ _ Hb); unfold Qeq; simpl; lia.
Qed.

(** X13.  The win_pct of a record is 1 exactly when the team has neither
    a loss nor a tie, and 0 exactly when it has neither a win nor a tie. *)
Theorem win_pct_extremes nfl year :
  ∃ data, calculate_standings nfl year = Some data
    ∧ ∀ r, r ∈ data →
        ((win_pct r == 1)%Q ↔ ts_losses r = 0 ∧ ts_ties r = 0)
        ∧ ((win_pct r == 0)%Q ↔ ts_wins r = 0 ∧ ts_ties r = 0).
Proof.
  destruct (calculate_standings_perm nfl year) as (data & Hdata & _).
  exists data. split; [done|]. intros r Hr.
  destruct (calculate_standings_elem _ _ _ _ Hdata Hr) as (t & Ht & ->).
  simpl.
  destruct (total_nonneg (completed (import_schedules nfl year)) t)
    as (Hw & Hl & Hti).
  apply quotient_extremes; try done.
  rewrite total_counts. by apply appearances_pos.
Qed.

(** ** The summary and the games of CHI *)

(** X14.  The summary is a record named CHI.  When CHI is in a game with a
    result, it has a conference, a division and at least one game counted;
    when CHI is in no such game, it is the record of zeros without
    conference and division. *)
Theorem summary_by_games nfl year :
  ∃ bears, get_bears_summary nfl year = Some bears
    ∧ team_name bears = "CHI"
    ∧ ((∃ g, g ∈ import_schedules nfl year ∧ is_Some (result g)
             ∧ (home_team g = "CHI" ∨ away_team g = "CHI")) →
       is_Some (conference bears) ∧ is_Some (division bears)
       ∧ 1 ≤ ts_wins bears + ts_losses bears + ts_ties bears)
    ∧ ((¬ ∃ g, g ∈ import_schedules nfl year ∧ is_Some (result g)
               ∧ (home_team g = "CHI" ∨ away_team g = "CHI")) →
       bears = fallback "CHI").
Proof.
  destruct (calculate_standings_perm nfl year) as (data & Hdata & _).
  unfold get_bears_summary. rewrite Hdata. simpl.
  exists (team_summary "CHI" data). split; [done|].
  set (games := completed (import_schedules nfl year)).
  assert (("CHI" ∈ team_set games)
          ↔ ∃ g, g ∈ import_schedules nfl year ∧ is_Some (result g)
                 ∧ (home_team g = "CHI" ∨ away_team g = "CHI")) as Hiff.
  { rewrite elem_of_team_set. unfold games, completed.
    setoid_rewrite list_elem_of_filter. naive_solver. }
  destruct (decide ("CHI" ∈ team_set games)) as [Hin|Hout].
  - pose proof (calculate_standings_elem_of _ _ _ _ Hdata Hin) as Hrec.
    assert (NoDup (team_name <$> data)) as Hnd.
    { rewrite (calculate_standings_names _ _ _ Hdata). apply NoDup_elements. }
    pose proof (team_summary_present data _ Hnd Hrec) as Hsum.
    change (team_summary "CHI" data
            = make_record (import_team_desc nfl)
                ("CHI", total (completed (import_schedules nfl year)) "CHI"))
      in Hsum.
    rewrite Hsum. split; [done|]. split; [|intros Hno; by apply Hiff in Hin].
    intros _. simpl. split; [by eexists|]. split; [by eexists|].
    rewrite total_counts. by apply appearances_pos.
  - rewrite team_summary_absent.
    + split; [done|]. split; [|done]. intros Hg. by apply Hiff in Hg.
    + intros r Hr Hname.
      destruct (calculate_standings_elem _ _ _ _ Hdata Hr) as (t & Ht & ->).
      simpl in Hname. by subst t.
Qed.

(** ** Further properties of the roster *)

Lemma NoDup_cols_to_keep : NoDup cols_to_keep.
Proof.
  unfold cols_to_keep.
  repeat (apply NoDup_cons; split;
          [intros Hin;
           repeat (apply elem_of_cons in Hin as [Hin|Hin]; [discriminate|]);
           inversion Hin|]).
  apply NoDup_nil_2.
Qed.

(** X15.  In a roster that is returned, the fields of an entry are
    pairwise different, each is on the allow-list and is a column of the
    source table, "team" is never one of them, and all entries have the
    same fields. *)
Theorem roster_schema nfl year records rec :
  get_bears_roster nfl year = Some records → rec ∈ records →
  NoDup rec.*1
  ∧ (∀ c, c ∈ rec.*1 →
       c ∈ cols_to_keep ∧ c ∈ df_columns (import_seasonal_rosters nfl year))
  ∧ ("team" ∉ rec.*1)
  ∧ ∀ rec', rec' ∈ records → rec'.*1 = rec.*1.
Proof.
  unfold get_bears_roster. case_bool_decide as Hteam; [|done].
  intros [= <-] Hrec%elem_of_to_records.
  apply list_elem_of_fmap in Hrec as (row & -> & _).
  rewrite to_record_keys.
  assert (∀ c, c ∈ filter
                 (λ c, c ∈ df_columns (import_seasonal_rosters nfl year))
                 cols_to_keep →
               c ∈ cols_to_keep
               ∧ c ∈ df_columns (import_seasonal_rosters nfl year)) as Hsub.
  { intros c Hc. apply list_elem_of_filter in Hc. naive_solver. }
  split; [apply NoDup_filter, NoDup_cols_to_keep|]. split; [done|]. split.
  - intros Hin. apply Hsub in Hin as [Hin _]. unfold cols_to_keep in Hin.
    repeat (apply elem_of_cons in Hin as [Hin|Hin]; [discriminate|]).
    inversion Hin.
  - intros rec' Hrec'%elem_of_to_records.
    apply list_elem_of_fmap in Hrec' as (row' & -> & _).
    by rewrite to_record_keys.
Qed.

Lemma roster_schema_witness :
  ∃ rec, rec ∈ default [] (get_bears_roster sample_source 2024)
    ∧ NoDup (rec.*1) ∧ "team" ∉ (rec.*1).
Proof.
  exists [("player_name", CStr "Ann Example"); ("position", CStr "");
          ("jersey_number", CNum 9)].
  destruct (roster_schema sample_source 2024
              [[("player_name", CStr "Ann Example"); ("position", CStr "");
                ("jersey_number", CNum 9)]]
              [("player_name", CStr "Ann Example"); ("position", CStr "");
               ("jersey_number", CNum 9)])
    as (Hnd & _ & Hteam & _).
  - vm_compute. reflexivity.
  - left.
  - split; [vm_compute; left|]. split; [exact Hnd | exact Hteam].
Defined.

(** X16.  In a roster that is returned from a table with at least one
    allow-listed column, there are as many entries as rows of the table
    whose team is CHI, and for each such row an entry that holds, for
    every allow-listed column of the table, the cell of the row, the empty
    string for a null.  From a table with no allow-listed column the
    roster is empty. *)
Theorem roster_rows nfl year records :
  get_bears_roster nfl year = Some records →
  ((∃ c, c ∈ cols_to_keep
         ∧ c ∈ df_columns (import_seasonal_rosters nfl year)) →
   length records
   = length (filter (λ row, row "team" = CStr "CHI")
               (df_rows (import_seasonal_rosters nfl year)))
   ∧ ∀ row, row ∈ df_rows (import_seasonal_rosters nfl year) →
       row "team" = CStr "CHI" →
       ∃ rec, rec ∈ records
         ∧ ∀ c, c ∈ cols_to_keep →
                c ∈ df_columns (import_seasonal_rosters nfl year) →
                (c, fillna (row c)) ∈ rec)
  ∧ ((∀ c, c ∈ cols_to_keep →
        c ∉ df_columns (import_seasonal_rosters nfl year)) →
     records = []).
Proof.
  unfold get_bears_roster. case_bool_decide as Hteam; [|done].
  intros [= <-]. split.
  - intros (c0 & Hc0 & Hcol0).
    destruct (filter (λ c, c ∈ df_columns (import_seasonal_rosters nfl year))
                cols_to_keep) as [|c1 cols] eqn:Hcols.
    { assert (c0 ∈ filter
                (λ c, c ∈ df_columns (import_seasonal_rosters nfl year))
                cols_to_keep) as Hin by (by apply list_elem_of_filter).
      rewrite Hcols in Hin. inversion Hin. }
    simpl to_records. split; [by rewrite length_fmap|].
    intros row Hrow Hchi. exists (to_record (c1 :: cols) row). split.
    + apply list_elem_of_fmap_2. by apply list_elem_of_filter.
    + intros c Hc Hcol. unfold to_record.
      apply (list_elem_of_fmap_2 (λ c, (c, fillna (row c)))).
      rewrite <- Hcols. by apply list_elem_of_filter.
  - intros Hnone.
    destruct (filter (λ c, c ∈ df_columns (import_seasonal_rosters nfl year))
                cols_to_keep) as [|c1 cols] eqn:Hcols; [done|].
    assert (c1 ∈ filter
              (λ c, c ∈ df_columns (import_seasonal_rosters nfl year))
              cols_to_keep) as Hin by (rewrite Hcols; left).
    apply list_elem_of_filter in Hin as [Hcol Hkeep].
    by destruct (Hnone c1 Hkeep).
Qed.

Lemma roster_rows_witness :
  length [[("player_name", CStr "Ann Example"); ("position", CStr "");
           ("jersey_number", CNum 9)]]
  = length (filter (λ row, row "team" = CStr "CHI") (df_rows sample_roster))
  ∧ ∃ rec, rec ∈ [[("player_name", CStr "Ann Example");
                   ("position", CStr ""); ("jersey_number", CNum 9)]]
      ∧ ("position", CStr "") ∈ rec.
Proof.
  destruct (roster_rows sample_source 2024
              [[("player_name", CStr "Ann Example"); ("position", CStr "");
                ("jersey_number", CNum 9)]]) as [Hsome _].
  - vm_compute. reflexivity.
  - destruct Hsome as [Hlen Hrows].
    + exists "position". split; [right; left | right; right; left].
    + split; [exact Hlen|].
      destruct (Hrows (λ c, if String.eqb c "team" then CStr "CHI"
                            else if String.eqb c "player_name"
                                 then CStr "Ann Example"
                            else if String.eqb c "position" then CNull
                            else CNum 9)) as (rec & Hrec & Hcells).
      * left.
      * reflexivity.
      * exists rec. split; [exact Hrec|].
        apply (Hcells "position"); [right; left | right; right; left].
Defined.

(** ** The endpoints *)

Lemma team_summary_name code data : team_name (team_summary code data) = code.
Proof.
  unfold team_summary.
  destruct (find (λ t, bool_decide (team_name t = code)) data) as [r|] eqn:Hf;
    [|done].
  apply find_some in Hf as [_ Hname]. by apply bool_decide_eq_true in Hname.
Qed.

Lemma bears_summary_name nfl year :
  ∃ bears, get_bears_summary nfl year = Some bears ∧ team_name bears = "CHI".
Proof.
  destruct (calculate_standings_perm nfl year) as (data & Hdata & _).
  unfold get_bears_summary. rewrite Hdata. simpl.
  eexists. split; [done|]. apply team_summary_name.
Qed.

(** X17.  The standings endpoint answers with data exactly when the
    provider returns the schedule and the team table, and the data are the
    standings of these two tables. *)
Theorem get_standings_ok_iff nfl year data :
  Facade.get_standings nfl year = Ok data
  ↔ ∃ games team_map,
      try_import_schedules nfl year = inr games
      ∧ try_import_team_desc nfl = inr team_map
      ∧ calculate_standings (source_of games team_map empty_frame) year
        = Some data.
Proof.
  unfold Facade.get_standings, Facade.calculate_standings,
    calculate_standings, source_of.
  cbn [import_schedules import_team_desc].
  destruct (try_import_schedules nfl year) as [d|games].
  { split; [done|]. by intros (? & ? & ? & _). }
  destruct (standings_of_lookup games) as (st & Hst & _).
  destruct (try_import_team_desc nfl) as [d|team_map].
  { rewrite Hst. split; [done|]. by intros (? & ? & _ & ? & _). }
  split.
  - rewrite Hst. intros [= <-]. exists games, team_map.
    by rewrite Hst.
  - intros (games' & team_map' & [= <-] & [= <-] & Hdata).
    rewrite Hst in Hdata |- *. simpl in Hdata. congruence.
Qed.

(** X18.  The standings endpoint answers with an error exactly when a
    call of the provider raises; the error is the one of the schedule call
    when that call raises, and else the one of the team table call.  A
    missing key is never the error. *)
Theorem get_standings_error_iff nfl year e :
  Facade.get_standings nfl year = ServerError e
  ↔ ∃ detail, e = Upstream detail
      ∧ (try_import_schedules nfl year = inl detail
         ∨ (∃ games, try_import_schedules nfl year = inr games)
           ∧ try_import_team_desc nfl = inl detail).
Proof.
  unfold Facade.get_standings, Facade.calculate_standings.
  destruct (try_import_schedules nfl year) as [d|games].
  { split.
    - intros [= <-]. exists d. split; [done|]. by left.
    - intros (d' & -> & [[= ->]|[[? ?] _]]); done. }
  destruct (standings_of_lookup games) as (st & -> & _).
  destruct (try_import_team_desc nfl) as [d|team_map].
  - split.
    + intros [= <-]. exists d. split; [done|]. right. split; [by eexists|done].
    + intros (d' & -> & [?|[_ [= ->]]]); done.
  - split; [done|]. intros (d' & _ & [?|[_ ?]]); done.
Qed.

(** X19.  When the provider returns the schedule and the team table, the
    summary endpoint answers with a record named CHI, the summary of the
    two tables; a year without a game of CHI is not an error. *)
Theorem summary_endpoint_ok nfl year games team_map :
  try_import_schedules nfl year = inr games →
  try_import_team_desc nfl = inr team_map →
  ∃ bears, Facade.get_bears_summary nfl year = Ok bears
    ∧ get_bears_summary (source_of games team_map empty_frame) year
      = Some bears
    ∧ team_name bears = "CHI".
Proof.
  intros Hgames Hmap.
  destruct (bears_summary_name (source_of games team_map empty_frame) year)
    as (bears & Hbears & Hname).
  exists bears. split; [|done].
  unfold Facade.get_bears_summary, Facade.calculate_standings.
  rewrite Hgames, Hmap.
  unfold get_bears_summary, calculate_standings, source_of in Hbears.
  cbn [import_schedules import_team_desc] in Hbears.
  destruct (standings_of games) as [st|]; [|done].
  simpl in Hbears. congruence.
Qed.

Lemma summary_endpoint_ok_witness :
  ∃ bears, Facade.get_bears_summary sample_provider 2024 = Ok bears
    ∧ team_name bears = "CHI".
Proof.
  destruct (summary_endpoint_ok sample_provider 2024 sample_schedule
              {["CHI" := mkMeta "NFC" "NFC North"]})
    as (bears & Hok & _ & Hname).
  - reflexivity.
  - reflexivity.
  - exists bears. split; [exact Hok | exact Hname].
Defined.

(** A table with a team column and no allow-listed column: no entry, also
    with rows of CHI. *)
Example roster_without_allowed_column :
  get_bears_roster
    (mkSource (λ _, []) ∅
       (λ _, mkFrame ["team"; "age"] [(λ _, CStr "CHI"); (λ _, CStr "CHI")]))
    2024 = Some [].
Proof. reflexivity. Qed.

(** A table with the team label twice: the roster fails. *)
Example roster_with_team_column_twice :
  get_bears_roster
    (mkSource (λ _, []) ∅
       (λ _, mkFrame ["team"; "team"; "position"] [(λ _, CStr "CHI")]))
    2024 = None.
Proof. reflexivity. Qed.
